(** * CTC beam scorers: the prefix-trie scorer and the KenLM scorer

    A shallow embedding of [tensorflow/core/util/ctc/ctc_beam_scorer.h]:
    the label translator, the scorer interface [BaseBeamScorer] and its two
    implementations [KenLMBeamScorer] and [PrefixScorer], followed by the
    properties of their state transitions.

    - C++ [float] is IEEE binary32, embedded with the standard library's
      [spec_float] operations at precision 24 and maximal exponent 128.
    - C++ [int] labels are embedded as [Z].
    - A [TrieNode<27>*] is an [option] of a node; [nullptr] is [None].
    - The out-parameter [to_state] is an argument and the updated state is
      the result.
    - The calls to the language model are recorded in a log next to the
      result, so that "no query is made" can be stated.
    - The last statement of the word-separator branch of
      [KenLMBeamScorer::ExpandState] is ill-formed in the source; whether
      it resets the child state is a parameter ([SeparatorReset]). *)

From Stdlib Require Import ZArith Bool List Ascii String Lia.
From Stdlib Require Import Floats.SpecFloat.
Import ListNotations.

Open Scope Z_scope.

(** ** Single precision floating point *)

Module F32.

Definition prec : Z := 24.
Definition emax : Z := 128.

Definition float : Type := spec_float.

Definition add (x y : float) : float := SFadd prec emax x y.
Definition sub (x y : float) : float := SFsub prec emax x y.
Definition div (x y : float) : float := SFdiv prec emax x y.

(** [static_cast<float>(n)] for an integer [n]: round to nearest, ties to
    even. *)
Definition of_int (n : Z) : float := binary_normalize prec emax n 0 false.

(** The literal [0.0f]. *)
Definition zero : float := S754_zero false.

(** The literal [1.0f]. *)
Definition one : float := Eval cbv in of_int 1.

(** The expression [-10.0f]. *)
Definition minus_ten : float := Eval cbv in SFopp (of_int 10).

(** Zeros, normal and subnormal numbers: the floats that denote a real
    number. *)
Definition is_finite (x : float) : bool :=
  match x with
  | S754_zero _ | S754_finite _ _ _ => true
  | S754_infinity _ | S754_nan => false
  end.

#[global] Arguments add : simpl never.
#[global] Arguments sub : simpl never.
#[global] Arguments div : simpl never.
#[global] Arguments of_int : simpl never.
#[global] Arguments one : simpl never.
#[global] Arguments minus_ten : simpl never.

End F32.

(** ** LabelToCharacterTranslator *)

Module LabelToCharacterTranslator.

Definition IsBlankLabel (label : Z) : bool := label =? 28.

Definition IsSpaceLabel (label : Z) : bool := label =? 27.

(** [return label + 'a';] converts the [int] sum to [char]: the low eight
    bits are kept. *)
Definition GetCharacterFromLabel (label : Z) : ascii :=
  if label =? 26 then "'"%char
  else if label =? 27 then " "%char
  else ascii_of_N (Z.to_N ((label + 97) mod 256)).

(** The symbols of a chain of expansions that [ExpandState] does not
    collapse: those that differ from the symbol before them and are not
    blank. [from_label] is the symbol before the first one. *)
Fixpoint kept_labels (from_label : Z) (labels : list Z) : list Z :=
  match labels with
  | [] => []
  | to_label :: rest =>
      if (from_label =? to_label) || IsBlankLabel to_label
      then kept_labels to_label rest
      else to_label :: kept_labels to_label rest
  end.

(** The characters of a list of symbols, as a string. *)
Fixpoint characters (labels : list Z) : string :=
  match labels with
  | [] => EmptyString
  | label :: rest => String (GetCharacterFromLabel label) (characters rest)
  end.

End LabelToCharacterTranslator.

(** ** The external oracles *)

(** Modelled from the spec: [TrieNode<27>] is declared outside this header.
    The trie is a read-only structure with a root, child lookup by symbol
    ([GetChildAt], [None] when there is no child) and a frequency count at
    every node ([GetFrequency]). Nodes are compared by identity, as the
    pointers of the source are. *)
Class Trie : Type := {
  TrieNode : Type;
  trieRoot : TrieNode;
  GetChildAt : TrieNode -> Z -> option TrieNode;
  GetFrequency : TrieNode -> Z
}.

(** The trie position reached from a position by looking up the symbols of
    a list one after the other; once the position is empty it stays so. *)
Fixpoint walk `{T : Trie} (position : option TrieNode) (labels : list Z)
  : option TrieNode :=
  match labels with
  | [] => position
  | label :: rest =>
      match position with
      | Some n => walk (GetChildAt n label) rest
      | None => None
      end
  end.

(** Modelled from the spec: [lm::ngram::ProbingModel] comes from
    [lm/model.hh]. The model gives a start state, a vocabulary lookup, an
    end-of-sentence token and [FullScore], which from a state and a token
    returns a log-probability ([full_score_return.prob]) and the next state
    (the out-parameter). *)
Class Model : Type := {
  State : Type;
  WordIndex : Type;
  BeginSentenceState : State;
  Index : string -> WordIndex;
  EndSentence : WordIndex;
  FullScore : State -> WordIndex -> F32.float * State
}.

(** [std::log10] on [float], from the C++ standard library. *)
Class Libm : Type := {
  log10 : F32.float -> F32.float
}.

(** The word-separator branch of [KenLMBeamScorer::ExpandState] ends with
    the statement [ResetIncompleteWord();]. The helper is declared with one
    parameter, the state to reset, and the statement passes none, so the
    source does not determine a behaviour for it. The two candidates are
    kept apart by [reset_reaches_to_state]: [true] when the reset is applied
    to [to_state] (what [ExpandStateEnd] does with its own state), [false]
    when the statement leaves [to_state] as it is. The properties below are
    proved for both, except where the statement names one. *)
Class SeparatorReset : Type := {
  reset_reaches_to_state : bool
}.

(** ** The log of language-model queries *)

Section Queries.
Context `{M : Model}.

Inductive Query : Type :=
| FullScoreQuery (in_state : State) (new_word : WordIndex).

Definition Queried (A : Type) : Type := (A * list Query)%type.

Definition ret {A : Type} (a : A) : Queried A := (a, []).

Definition bind {A B : Type} (m : Queried A) (f : A -> Queried B)
  : Queried B :=
  let '(a, q1) := m in
  let '(b, q2) := f a in
  (b, q1 ++ q2).

(** [model->FullScore(in_state, new_word, out)] *)
Definition askFullScore (in_state : State) (new_word : WordIndex)
  : Queried (F32.float * State) :=
  (FullScore in_state new_word, [FullScoreQuery in_state new_word]).
End Queries.

Declare Scope queried_scope.
Delimit Scope queried_scope with queried.
Notation "x <- m ;; k" := (bind m (fun x => k))
  (at level 61, m at next level, right associativity) : queried_scope.
Notation "' p <- m ;; k" := (bind m (fun x => let p := x in k))
  (at level 61, p pattern, m at next level, right associativity)
  : queried_scope.

(** ** BaseBeamScorer *)

(** The interface of the source, for a beam-state type [CTCBeamState]. *)
Class BaseBeamScorer (CTCBeamState : Type) : Type := {
  InitializeState : CTCBeamState -> CTCBeamState;
  ExpandState : CTCBeamState -> Z -> CTCBeamState -> Z -> CTCBeamState;
  ExpandStateEnd : CTCBeamState -> CTCBeamState;
  GetStateExpansionScore : CTCBeamState -> F32.float -> F32.float;
  GetStateEndExpansionScore : CTCBeamState -> F32.float
}.

(** The default bodies of the virtual methods. *)
Definition DefaultBeamScorer (CTCBeamState : Type)
  : BaseBeamScorer CTCBeamState := {|
  InitializeState root := root;
  ExpandState from_state from_label to_state to_label := to_state;
  ExpandStateEnd state := state;
  GetStateExpansionScore state previous_score := previous_score;
  GetStateEndExpansionScore state := F32.zero
|}.

(** ** KenLMBeamScorer *)

Module KenLMBeamScorer.
Import LabelToCharacterTranslator.

Section Scorer.
Context `{T : Trie} `{M : Model} `{L : Libm} `{R : SeparatorReset}.

(** Modelled from the spec: [KenLMBeamState] is declared in
    [ctc_beam_entry.h]. Its fields are the six that [CopyState] copies. *)
Record KenLMBeamState : Type := mkKenLMBeamState {
  language_model_score : F32.float;
  score : F32.float;
  delta_score : F32.float;
  incomplete_word : string;
  incomplete_word_trie_node : option TrieNode;
  model_state : State
}.

(** Assignments to one field of a state. *)
Definition set_language_model_score (s : KenLMBeamState) (v : F32.float) :=
  mkKenLMBeamState v (score s) (delta_score s) (incomplete_word s)
    (incomplete_word_trie_node s) (model_state s).
Definition set_score (s : KenLMBeamState) (v : F32.float) :=
  mkKenLMBeamState (language_model_score s) v (delta_score s)
    (incomplete_word s) (incomplete_word_trie_node s) (model_state s).
Definition set_delta_score (s : KenLMBeamState) (v : F32.float) :=
  mkKenLMBeamState (language_model_score s) (score s) v
    (incomplete_word s) (incomplete_word_trie_node s) (model_state s).
Definition set_incomplete_word (s : KenLMBeamState) (v : string) :=
  mkKenLMBeamState (language_model_score s) (score s) (delta_score s)
    v (incomplete_word_trie_node s) (model_state s).
Definition set_incomplete_word_trie_node (s : KenLMBeamState)
    (v : option TrieNode) :=
  mkKenLMBeamState (language_model_score s) (score s) (delta_score s)
    (incomplete_word s) v (model_state s).
Definition set_model_state (s : KenLMBeamState) (v : State) :=
  mkKenLMBeamState (language_model_score s) (score s) (delta_score s)
    (incomplete_word s) (incomplete_word_trie_node s) v.

Definition InitializeState (root : KenLMBeamState) : KenLMBeamState :=
  let root := set_language_model_score root F32.zero in
  let root := set_score root F32.zero in
  let root := set_delta_score root F32.zero in
  let root := set_incomplete_word root EmptyString in
  let root := set_incomplete_word_trie_node root (Some trieRoot) in
  set_model_state root BeginSentenceState.

Definition UpdateWithLMScore (state : KenLMBeamState) (lm_score : F32.float)
  : KenLMBeamState :=
  let previous_score := score state in
  let state := set_language_model_score state lm_score in
  let state := set_score state lm_score in
  set_delta_score state (F32.sub lm_score previous_score).

Definition ResetIncompleteWord (state : KenLMBeamState) : KenLMBeamState :=
  let state := set_incomplete_word state EmptyString in
  set_incomplete_word_trie_node state (Some trieRoot).

(** Returns [full_score_return.prob] and the out-parameter [out]. *)
Definition ScoreIncompleteWord (model_state : State) (word : string)
  : Queried (F32.float * State) :=
  let vocab := Index word in
  askFullScore model_state vocab.

Definition CopyState (from to : KenLMBeamState) : KenLMBeamState :=
  let to := set_language_model_score to (language_model_score from) in
  let to := set_score to (score from) in
  let to := set_delta_score to (delta_score from) in
  let to := set_incomplete_word to (incomplete_word from) in
  let to :=
    set_incomplete_word_trie_node to (incomplete_word_trie_node from) in
  set_model_state to (model_state from).

(** The block of [ExpandState] that walks the trie: the new value of
    [to_state->incomplete_word_trie_node] and [prefix_prob]. *)
Definition lookup_prefix (from_state to_state : KenLMBeamState)
    (to_label : Z) : KenLMBeamState * F32.float :=
  let trie_node := incomplete_word_trie_node from_state in
  let prefix_prob := F32.minus_ten in
  match trie_node with
  | Some n =>
      let trie_node := GetChildAt n to_label in
      let to_state := set_incomplete_word_trie_node to_state trie_node in
      match trie_node with
      | Some c =>
          let prefix_prob :=
            F32.div (F32.of_int (GetFrequency c))
                    (F32.of_int (GetFrequency trieRoot)) in
          (to_state, log10 prefix_prob)
      | None => (to_state, prefix_prob)
      end
  | None => (to_state, prefix_prob)
  end.

(** The last statement of the word-separator branch is written
    [ResetIncompleteWord();] in the source, without its argument: it
    resets [to_state] or leaves it, as [reset_reaches_to_state] says. *)
Definition ExpandState (from_state : KenLMBeamState) (from_label : Z)
    (to_state : KenLMBeamState) (to_label : Z) : Queried KenLMBeamState :=
  let to_state := CopyState from_state to_state in
  if (from_label =? to_label) || IsBlankLabel to_label then
    ret (set_delta_score to_state F32.zero)
  else if negb (IsSpaceLabel to_label) then
    let to_state :=
      set_incomplete_word to_state
        (incomplete_word to_state
           ++ String (GetCharacterFromLabel to_label) EmptyString) in
    let '(to_state, prefix_prob) :=
      lookup_prefix from_state to_state to_label in
    let to_state :=
      set_score to_state
        (F32.add prefix_prob (language_model_score to_state)) in
    ret (set_delta_score to_state
           (F32.sub (score to_state) (score from_state)))
  else
    ('(probability, out) <-
       ScoreIncompleteWord (model_state from_state)
         (incomplete_word to_state) ;;
     let to_state := set_model_state to_state out in
     let to_state := UpdateWithLMScore to_state probability in
     ret (if reset_reaches_to_state
          then ResetIncompleteWord to_state
          else to_state))%queried.

Definition ExpandStateEnd (state : KenLMBeamState)
  : Queried KenLMBeamState :=
  (state <-
     (if (0 <? Z.of_nat (String.length (incomplete_word state))) then
        '(_, out) <-
          ScoreIncompleteWord (model_state state) (incomplete_word state) ;;
        let state := ResetIncompleteWord state in
        ret (set_model_state state out)
      else ret state) ;;
   '(full_score_return_prob, _) <-
     askFullScore (model_state state) EndSentence ;;
   ret (UpdateWithLMScore state full_score_return_prob))%queried.

Definition GetStateExpansionScore (state : KenLMBeamState)
    (previous_score : F32.float) : F32.float :=
  F32.add (delta_score state) previous_score.

Definition GetStateEndExpansionScore (state : KenLMBeamState) : F32.float :=
  delta_score state.

(** The states a decoder can hold: the initialised root state and those
    produced from a reachable state by [ExpandState]. *)
Inductive reachable : KenLMBeamState -> Prop :=
| reachable_init : forall root, reachable (InitializeState root)
| reachable_expand : forall from_state from_label to_state to_label,
    reachable from_state ->
    reachable (fst (ExpandState from_state from_label to_state to_label)).

(** One call of [ExpandState] made by the decoder along a beam: the symbol
    of the child and the child's state before the call. *)
Definition Step : Type := (Z * KenLMBeamState)%type.

(** A chain of expansions along a beam: every call passes the parent's
    state and the parent's symbol. The result is the last state and the
    queries of all the calls, in order. *)
Fixpoint ExpandChain (from_state : KenLMBeamState) (from_label : Z)
    (steps : list Step) : Queried KenLMBeamState :=
  match steps with
  | [] => ret from_state
  | (to_label, to_state) :: rest =>
      (child <- ExpandState from_state from_label to_state to_label ;;
       ExpandChain child to_label rest)%queried
  end.

(** No step of the chain is a word boundary. *)
Definition same_word (steps : list Step) : bool :=
  forallb (fun st : Step => negb (IsSpaceLabel (fst st))) steps.

(** The unigram proxy that belongs to a trie position. *)
Definition proxy_of (position : option TrieNode) : F32.float :=
  match position with
  | Some c =>
      log10 (F32.div (F32.of_int (GetFrequency c))
                     (F32.of_int (GetFrequency trieRoot)))
  | None => F32.minus_ten
  end.

End Scorer.
End KenLMBeamScorer.


(** ** PrefixScorer *)

Module PrefixScorer.
Import LabelToCharacterTranslator.

Section Scorer.
Context `{T : Trie}.

(** Modelled from the spec: [PrefixBeamState] is declared in
    [ctc_beam_entry.h]. Its fields are the two that [CopyState] copies. *)
Record PrefixBeamState : Type := mkPrefixBeamState {
  prob : F32.float;
  node : option TrieNode
}.

Definition set_prob (s : PrefixBeamState) (v : F32.float) :=
  mkPrefixBeamState v (node s).
Definition set_node (s : PrefixBeamState) (v : option TrieNode) :=
  mkPrefixBeamState (prob s) v.

Definition InitializeState (root : PrefixBeamState) : PrefixBeamState :=
  let root := set_prob root F32.zero in
  set_node root (Some trieRoot).

Definition CopyState (from to : PrefixBeamState) : PrefixBeamState :=
  let to := set_prob to (prob from) in
  set_node to (node from).

Definition ExpandState (from_state : PrefixBeamState) (from_label : Z)
    (to_state : PrefixBeamState) (to_label : Z) : PrefixBeamState :=
  let to_state := CopyState from_state to_state in
  if (from_label =? to_label) || IsBlankLabel to_label then
    to_state
  else if IsSpaceLabel to_label then
    set_node to_state (Some trieRoot)
  else
    match node to_state with
    | None => to_state
    | Some n =>
        let to_state := set_node to_state (GetChildAt n to_label) in
        match node to_state with
        | None => set_prob to_state (F32.sub (prob to_state) F32.one)
        | Some _ => to_state
        end
    end.

Definition ExpandStateEnd (state : PrefixBeamState) : PrefixBeamState :=
  state.

Definition GetStateExpansionScore (state : PrefixBeamState)
    (previous_score : F32.float) : F32.float :=
  prob state.

Definition GetStateEndExpansionScore (state : PrefixBeamState) : F32.float :=
  prob state.

(** One call of [ExpandState] made by the decoder along a beam: the symbol
    of the child and the child's state before the call. *)
Definition Step : Type := (Z * PrefixBeamState)%type.

(** The states along a chain of expansions, oldest first: every call passes
    the parent's state and the parent's symbol. *)
Fixpoint ExpandTrace (from_state : PrefixBeamState) (from_label : Z)
    (steps : list Step) : list PrefixBeamState :=
  match steps with
  | [] => []
  | (to_label, to_state) :: rest =>
      let child := ExpandState from_state from_label to_state to_label in
      child :: ExpandTrace child to_label rest
  end.

(** The state reached at the end of a chain of expansions. *)
Definition ExpandAll (from_state : PrefixBeamState) (from_label : Z)
    (steps : list Step) : PrefixBeamState :=
  last (ExpandTrace from_state from_label steps) from_state.

(** A transition leaves the trie when the parent has a trie position and the
    child has none. *)
Definition leaves_trie (parent child : PrefixBeamState) : bool :=
  match node parent, node child with
  | Some _, None => true
  | _, _ => false
  end.

(** The number of transitions of a chain that leave the trie. *)
Fixpoint count_leaves (from_state : PrefixBeamState)
    (trace : list PrefixBeamState) : nat :=
  match trace with
  | [] => O
  | child :: rest =>
      ((if leaves_trie from_state child then 1 else 0)
       + count_leaves child rest)%nat
  end.

(** No step of the chain is a word boundary. *)
Definition same_word (steps : list Step) : bool :=
  forallb (fun st : Step => negb (IsSpaceLabel (fst st))) steps.

(** The number of steps of a chain whose symbol is the separator. *)
Definition separators (steps : list Step) : nat :=
  List.length (filter (fun st : Step => IsSpaceLabel (fst st)) steps).

(** [prob -= 1.0f], [n] times. *)
Definition penalised (n : nat) (p : F32.float) : F32.float :=
  Nat.iter n (fun q => F32.sub q F32.one) p.

End Scorer.
End PrefixScorer.

(** ** The two scorers as implementations of the interface *)

#[global] Instance KenLMBeamScorer_scorer
    `{T : Trie} `{M : Model} `{L : Libm} `{R : SeparatorReset}
  : BaseBeamScorer KenLMBeamScorer.KenLMBeamState := {|
  InitializeState := KenLMBeamScorer.InitializeState;
  ExpandState from_state from_label to_state to_label :=
    fst (KenLMBeamScorer.ExpandState from_state from_label to_state to_label);
  ExpandStateEnd state := fst (KenLMBeamScorer.ExpandStateEnd state);
  GetStateExpansionScore := KenLMBeamScorer.GetStateExpansionScore;
  GetStateEndExpansionScore := KenLMBeamScorer.GetStateEndExpansionScore
|}.

#[global] Instance PrefixScorer_scorer `{T : Trie}
  : BaseBeamScorer PrefixScorer.PrefixBeamState := {|
  InitializeState := PrefixScorer.InitializeState;
  ExpandState := PrefixScorer.ExpandState;
  ExpandStateEnd := PrefixScorer.ExpandStateEnd;
  GetStateExpansionScore := PrefixScorer.GetStateExpansionScore;
  GetStateEndExpansionScore := PrefixScorer.GetStateEndExpansionScore
|}.

(** ** A small trie and a small model, for concrete runs *)

Module Sample.

(** A trie given by the table of its nodes: a node is the path of symbols
    from the root, so that two nodes are the same exactly when they are the
    same position of the trie. *)
Definition path : Type := list Z.

Definition path_eqb (p q : path) : bool :=
  if list_eq_dec Z.eq_dec p q then true else false.

Definition table : Type := list (path * Z).

Definition table_frequency (t : table) (p : path) : Z :=
  match find (fun e => path_eqb (fst e) p) t with
  | Some e => snd e
  | None => 0
  end.

Definition table_child (t : table) (p : path) (label : Z) : option path :=
  match find (fun e => path_eqb (fst e) (p ++ [label])) t with
  | Some e => Some (fst e)
  | None => None
  end.

(** The word "ht" seen 3 times and the word "a" seen 250 times among 1000
    words. *)
Definition sample_table : table :=
  [([], 1000); ([7], 40); ([7; 19], 3); ([0], 250)].

Definition sample_trie : Trie := {|
  TrieNode := path;
  trieRoot := [];
  GetChildAt := table_child sample_table;
  GetFrequency := table_frequency sample_table
|}.

(** A model whose state is the number of tokens seen, whose tokens are word
    lengths (0 for the end of the sentence), and which scores a token of
    length [n] after [k] tokens at [-(n + k + 1)]. *)
Definition sample_model : Model := {|
  State := nat;
  WordIndex := nat;
  BeginSentenceState := O;
  Index := String.length;
  EndSentence := O;
  FullScore k n := (F32.of_int (- Z.of_nat (n + k + 1)), S k)
|}.

(** A coarse decimal logarithm: the binary exponent of the argument times
    log10(2), truncated to an integer. *)
Definition coarse_log10 (x : F32.float) : F32.float :=
  match x with
  | S754_nan => S754_nan
  | S754_infinity false => x
  | S754_infinity true => S754_nan
  | S754_zero _ => S754_infinity true
  | S754_finite true _ _ => S754_nan
  | S754_finite false m e =>
      F32.of_int (((Z.pos (digits2_pos m) + e - 1) * 30103) / 100000)
  end.

Definition sample_libm : Libm := {| log10 := coarse_log10 |}.

Definition reset_misses : SeparatorReset :=
  {| reset_reaches_to_state := false |}.

(** A trie in which the node of 'h' has count 0. *)
Definition zero_count_trie : Trie := {|
  TrieNode := path;
  trieRoot := [];
  GetChildAt := table_child [([], 1000); ([7], 0)];
  GetFrequency := table_frequency [([], 1000); ([7], 0)]
|}.


(** States of the KenLM scorer over the sample oracles. [fresh_state] is a
    child state before [ExpandState] fills it. *)
Definition KenLMState : Type :=
  @KenLMBeamScorer.KenLMBeamState sample_trie sample_model.

Definition expand (from_state : KenLMState) (from_label to_label : Z)
    (to_state : KenLMState) : KenLMState :=
  fst (@KenLMBeamScorer.ExpandState sample_trie sample_model sample_libm
         reset_misses from_state from_label to_state to_label).

Definition fresh_state : KenLMState :=
  @KenLMBeamScorer.mkKenLMBeamState sample_trie sample_model
    S754_nan S754_nan S754_nan "?" None 7%nat.

Definition root_state : KenLMState :=
  KenLMBeamScorer.InitializeState fresh_state.

(** After 'h', after "ht", after "ht" and a separator, after "htf" (which
    is not in the trie). *)
Definition state_h : KenLMState := expand root_state (-1) 7 fresh_state.
Definition state_ht : KenLMState := expand state_h 7 19 fresh_state.
Definition state_ht_sep : KenLMState := expand state_ht 19 27 fresh_state.
Definition state_htf : KenLMState := expand state_ht 19 5 fresh_state.

(** States of the prefix scorer over the sample trie. *)
Definition PrefixState : Type :=
  @PrefixScorer.PrefixBeamState sample_trie.

Definition fresh_prefix_state : PrefixState :=
  @PrefixScorer.mkPrefixBeamState sample_trie S754_nan None.

Definition root_prefix_state : PrefixState :=
  PrefixScorer.InitializeState fresh_prefix_state.

(** After 'h', and after 'h' and a separator. *)
Definition prefix_state_h : PrefixState :=
  PrefixScorer.ExpandState root_prefix_state (-1) fresh_prefix_state 7.
Definition prefix_state_h_sep : PrefixState :=
  PrefixScorer.ExpandState prefix_state_h 7 fresh_prefix_state 27.

(** Over the trie with a zero count: the root, the state after 'h' and the
    state after a second, repeated 'h'. *)
Definition ZeroCountState : Type :=
  @KenLMBeamScorer.KenLMBeamState zero_count_trie sample_model.

Definition zero_count_expand (from_state : ZeroCountState)
    (from_label to_label : Z) (to_state : ZeroCountState)
  : ZeroCountState :=
  fst (@KenLMBeamScorer.ExpandState zero_count_trie sample_model
         sample_libm reset_misses from_state from_label to_state to_label).

Definition zero_count_fresh : ZeroCountState :=
  @KenLMBeamScorer.mkKenLMBeamState zero_count_trie sample_model
    S754_nan S754_nan S754_nan "?" None 7%nat.

Definition zero_count_h : ZeroCountState :=
  zero_count_expand (KenLMBeamScorer.InitializeState zero_count_fresh)
    (-1) 7 zero_count_fresh.





End Sample.

(** * Properties *)

(** ** Floating point *)

(** A float that denotes a real number, subtracted from itself, gives
    [0.0f]. *)
Lemma F32_sub_diag (x : F32.float) :
  F32.is_finite x = true -> F32.sub x x = F32.zero.
Proof.
  destruct x as [s | s | | s m e]; simpl; intro Hfin; try discriminate.
  - destruct s; reflexivity.
  - unfold F32.sub, SFsub.
    rewrite Z.sub_diag.
    reflexivity.
Qed.

(** ** The log of queries *)

Section QueriedFacts.
Context `{M : Model}.

Lemma fst_bind {A B : Type} (m : Queried A) (f : A -> Queried B) :
  fst (bind m f) = fst (f (fst m)).
Proof.
  unfold bind. destruct m as [a q1]. simpl. destruct (f a); reflexivity.
Qed.

Lemma snd_bind {A B : Type} (m : Queried A) (f : A -> Queried B) :
  snd (bind m f) = snd m ++ snd (f (fst m)).
Proof.
  unfold bind. destruct m as [a q1]. simpl. destruct (f a); reflexivity.
Qed.

End QueriedFacts.

(** ** KenLMBeamScorer *)

Section KenLMProperties.
Import LabelToCharacterTranslator KenLMBeamScorer.
Context `{T : Trie} `{M : Model} `{L : Libm} `{R : SeparatorReset}.

(** The three branches of [ExpandState]. *)
Lemma ExpandState_collapsed from_state from_label to_state to_label :
  (from_label =? to_label) || IsBlankLabel to_label = true ->
  ExpandState from_state from_label to_state to_label
  = (set_delta_score (CopyState from_state to_state) F32.zero, []).
Proof.
  intro Hc. unfold ExpandState. rewrite Hc. reflexivity.
Qed.

Lemma ExpandState_letter from_state from_label to_state to_label :
  (from_label =? to_label) || IsBlankLabel to_label = false ->
  IsSpaceLabel to_label = false ->
  ExpandState from_state from_label to_state to_label
  = (let to_state := CopyState from_state to_state in
     let to_state :=
       set_incomplete_word to_state
         (incomplete_word to_state
            ++ String (GetCharacterFromLabel to_label) EmptyString) in
     let '(to_state, prefix_prob) :=
       lookup_prefix from_state to_state to_label in
     let to_state :=
       set_score to_state
         (F32.add prefix_prob (language_model_score to_state)) in
     set_delta_score to_state (F32.sub (score to_state) (score from_state)),
     []).
Proof.
  intros Hc Hs. unfold ExpandState. rewrite Hc, Hs. simpl.
  destruct (lookup_prefix _ _ _). reflexivity.
Qed.

Lemma ExpandState_separator from_state from_label to_state to_label :
  (from_label =? to_label) || IsBlankLabel to_label = false ->
  IsSpaceLabel to_label = true ->
  ExpandState from_state from_label to_state to_label
  = (let to_state := CopyState from_state to_state in
     let full_score :=
       FullScore (model_state from_state)
         (Index (incomplete_word to_state)) in
     let to_state := set_model_state to_state (snd full_score) in
     let to_state := UpdateWithLMScore to_state (fst full_score) in
     if reset_reaches_to_state
     then ResetIncompleteWord to_state
     else to_state,
     [FullScoreQuery (model_state from_state)
        (Index (incomplete_word from_state))]).
Proof.
  intros Hc Hs. unfold ExpandState. rewrite Hc, Hs. simpl.
  unfold ScoreIncompleteWord, askFullScore, bind, ret. simpl.
  destruct (FullScore _ _). reflexivity.
Qed.

(** The hypothesis "not repeated and not blank" in the form the code tests
    it. *)
Lemma not_collapsed from_label to_label :
  from_label <> to_label -> IsBlankLabel to_label = false ->
  (from_label =? to_label) || IsBlankLabel to_label = false.
Proof.
  intros Hne Hb. rewrite Hb, orb_false_r. now apply Z.eqb_neq.
Qed.

(** The trie walk leaves every field but the trie position as it was. *)
Lemma lookup_prefix_frame from_state to_state to_label :
  let r := fst (lookup_prefix from_state to_state to_label) in
  language_model_score r = language_model_score to_state
  /\ score r = score to_state
  /\ delta_score r = delta_score to_state
  /\ incomplete_word r = incomplete_word to_state
  /\ model_state r = model_state to_state.
Proof.
  unfold lookup_prefix.
  destruct (incomplete_word_trie_node from_state) as [n |]; simpl.
  - destruct (GetChildAt n to_label); simpl; repeat split.
  - repeat split.
Qed.


(** The value of [ExpandStateEnd]: the state after the pending word, if
    any, went through the model, updated with the score of the
    end-of-sentence token, and the queries made. *)
Lemma ExpandStateEnd_value (state : KenLMBeamState) :
  ExpandStateEnd state
  = (let flushed :=
       match incomplete_word state with
       | EmptyString => state
       | String _ _ =>
           set_model_state (ResetIncompleteWord state)
             (snd (FullScore (model_state state)
                     (Index (incomplete_word state))))
       end in
     (UpdateWithLMScore flushed
        (fst (FullScore (model_state flushed) EndSentence)),
      match incomplete_word state with
      | EmptyString => []
      | String _ _ =>
          [FullScoreQuery (model_state state)
             (Index (incomplete_word state))]
      end ++ [FullScoreQuery (model_state flushed) EndSentence])).
Proof.
  unfold ExpandStateEnd, ScoreIncompleteWord, askFullScore, bind, ret.
  destruct (incomplete_word state) as [| c w] eqn:Hw; simpl.
  - destruct (FullScore (model_state state) EndSentence) as [p out].
    reflexivity.
  - destruct (FullScore (model_state state) (Index (String c w)))
      as [pw outw].
    simpl.
    destruct (FullScore outw EndSentence) as [p out].
    reflexivity.
Qed.

(** C1 (as amended). At [ExpandStateEnd], a non-empty [incomplete_word] is
    passed to the language model only to advance [model_state]: the word's
    own log-probability is dropped. [language_model_score] and [score] are
    then overwritten with the log-probability of the end-of-sentence token
    in that model state (the current model state when [incomplete_word] is
    empty), and [delta_score] is that value minus the previous [score].
    The model is queried for the word (when there is one) and then once for
    the end-of-sentence token, and [incomplete_word] is empty afterwards. *)
Theorem ExpandStateEnd_end_of_sentence_score (state : KenLMBeamState) :
  let flushed :=
    match incomplete_word state with
    | EmptyString => model_state state
    | String _ _ =>
        snd (FullScore (model_state state) (Index (incomplete_word state)))
    end in
  let end_score := fst (FullScore flushed EndSentence) in
  let final := fst (ExpandStateEnd state) in
  language_model_score final = end_score
  /\ score final = end_score
  /\ delta_score final = F32.sub end_score (score state)
  /\ model_state final = flushed
  /\ incomplete_word final = EmptyString
  /\ snd (ExpandStateEnd state)
     = match incomplete_word state with
       | EmptyString => []
       | String _ _ =>
           [FullScoreQuery (model_state state)
              (Index (incomplete_word state))]
       end ++ [FullScoreQuery flushed EndSentence].
Proof.
  rewrite ExpandStateEnd_value.
  destruct (incomplete_word state) as [| c w] eqn:Hw; simpl;
    rewrite ?Hw; repeat split.
Qed.

(** C2. After an [ExpandState] call whose new symbol is the word separator
    and whose previous symbol is not, the child has an empty
    [incomplete_word] and the root as trie position exactly when the reset
    of the last statement of the branch reaches [to_state]; when it does
    not, the child has the parent's [incomplete_word] and trie position. *)
Theorem separator_reset_is_the_last_statement
    from_state from_label to_state to_label :
  IsSpaceLabel to_label = true ->
  from_label <> to_label ->
  let child := fst (ExpandState from_state from_label to_state to_label) in
  if reset_reaches_to_state
  then incomplete_word child = EmptyString
       /\ incomplete_word_trie_node child = Some trieRoot
  else incomplete_word child = incomplete_word from_state
       /\ incomplete_word_trie_node child
          = incomplete_word_trie_node from_state.
Proof.
  intros Hs Hne.
  assert (Hb : IsBlankLabel to_label = false).
  { unfold IsSpaceLabel in Hs. unfold IsBlankLabel.
    apply Z.eqb_eq in Hs. subst to_label. reflexivity. }
  rewrite ExpandState_separator by (auto using not_collapsed).
  simpl. destruct reset_reaches_to_state; simpl; split; reflexivity.
Qed.

(** C4. On a symbol that is neither repeated, nor blank, nor the separator:
    when the parent has a trie position with a child for the symbol, the
    trie position becomes that child and the proxy is
    [log10 (child frequency / root frequency)]; when the parent has no trie
    position or there is no such child, the trie position is empty and the
    proxy is [-10]. In both cases [score] is the proxy plus
    [language_model_score] and [delta_score] is the new [score] minus the
    parent's [score]. *)
Theorem letter_expansion_uses_unigram_proxy
    from_state from_label to_state to_label :
  from_label <> to_label ->
  IsBlankLabel to_label = false ->
  IsSpaceLabel to_label = false ->
  let child := fst (ExpandState from_state from_label to_state to_label) in
  let found :=
    match incomplete_word_trie_node from_state with
    | Some n => GetChildAt n to_label
    | None => None
    end in
  let proxy :=
    match found with
    | Some c =>
        log10 (F32.div (F32.of_int (GetFrequency c))
                       (F32.of_int (GetFrequency trieRoot)))
    | None => F32.minus_ten
    end in
  incomplete_word_trie_node child = found
  /\ language_model_score child = language_model_score from_state
  /\ score child = F32.add proxy (language_model_score from_state)
  /\ delta_score child = F32.sub (score child) (score from_state).
Proof.
  intros Hne Hb Hs.
  rewrite ExpandState_letter by (auto using not_collapsed).
  unfold lookup_prefix.
  destruct (incomplete_word_trie_node from_state) as [n |] eqn:Hn; simpl.
  - destruct (GetChildAt n to_label) as [c |]; simpl; repeat split.
  - rewrite Hn. repeat split.
Qed.

(** C7 (as amended). After an [ExpandState] that is not collapsed and
    after [ExpandStateEnd], [delta_score] is the state's [score] after the
    transition minus its [score] before. After a collapsed [ExpandState]
    (a repeated or blank symbol) [score] is unchanged and [delta_score] is
    [0.0f], which is that difference when the [score] is finite. *)
Theorem delta_score_is_score_difference
    from_state from_label to_state to_label :
  let child := fst (ExpandState from_state from_label to_state to_label) in
  let final := fst (ExpandStateEnd from_state) in
  (if (from_label =? to_label) || IsBlankLabel to_label
   then delta_score child = F32.zero
        /\ score child = score from_state
        /\ (F32.is_finite (score from_state) = true ->
            delta_score child = F32.sub (score child) (score from_state))
   else delta_score child = F32.sub (score child) (score from_state))
  /\ delta_score final = F32.sub (score final) (score from_state).
Proof.
  split.
  - destruct ((from_label =? to_label) || IsBlankLabel to_label) eqn:Hc.
    + rewrite ExpandState_collapsed by assumption. simpl.
      repeat split. intro Hfin. symmetry. now apply F32_sub_diag.
    + destruct (IsSpaceLabel to_label) eqn:Hs.
      * rewrite ExpandState_separator by assumption. simpl.
        destruct reset_reaches_to_state; reflexivity.
      * rewrite ExpandState_letter by assumption.
        simpl.
        destruct (lookup_prefix _ _ _) as [t p]. reflexivity.
  - rewrite ExpandStateEnd_value.
    destruct (incomplete_word from_state); reflexivity.
Qed.

(** C8. [GetStateExpansionScore] is [delta_score] plus the given score and
    [GetStateEndExpansionScore] is [delta_score], in every state. *)
Theorem expansion_score_is_delta_score
    (state : KenLMBeamState) (p : F32.float) :
  GetStateExpansionScore state p = F32.add (delta_score state) p
  /\ GetStateEndExpansionScore state = delta_score state.
Proof.
  split; reflexivity.
Qed.


End KenLMProperties.

(** ** PrefixScorer *)

Section PrefixProperties.
Import LabelToCharacterTranslator PrefixScorer.
Context `{T : Trie}.

(** A transition leaves the trie exactly when the symbol is looked up from
    a trie position and has no child there. *)
Lemma leaves_trie_iff from_state from_label to_state to_label :
  leaves_trie from_state
    (ExpandState from_state from_label to_state to_label) = true
  <-> ((from_label =? to_label) || IsBlankLabel to_label = false
       /\ IsSpaceLabel to_label = false
       /\ exists n, node from_state = Some n
                    /\ GetChildAt n to_label = None).
Proof.
  unfold leaves_trie, ExpandState, CopyState.
  destruct ((from_label =? to_label) || IsBlankLabel to_label);
    [| destruct (IsSpaceLabel to_label)];
    destruct (node from_state) as [n |] eqn:Hn; simpl; try rewrite Hn;
    try (destruct (GetChildAt n to_label) as [c |] eqn:Hc; simpl);
    (split;
     [ intro H; try discriminate; repeat split; eauto
     | intros (H1 & H2 & m & Hm & Hnone);
       try discriminate; try reflexivity; congruence ]).
Qed.

(** The penalty is [1.0f], subtracted on the transitions that leave the
    trie and on no other. *)
Lemma ExpandState_prob from_state from_label to_state to_label :
  let child := ExpandState from_state from_label to_state to_label in
  prob child
  = if leaves_trie from_state child
    then F32.sub (prob from_state) F32.one
    else prob from_state.
Proof.
  unfold leaves_trie, ExpandState, CopyState.
  destruct ((from_label =? to_label) || IsBlankLabel to_label);
    [| destruct (IsSpaceLabel to_label)];
    destruct (node from_state) as [n |] eqn:Hn; simpl; try rewrite Hn;
    try (destruct (GetChildAt n to_label) as [c |] eqn:Hc; simpl);
    reflexivity.
Qed.

(** With an empty trie position, a symbol that is not the separator changes
    nothing. *)
Lemma ExpandState_sticky from_state from_label to_state to_label :
  node from_state = None ->
  IsSpaceLabel to_label = false ->
  let child := ExpandState from_state from_label to_state to_label in
  node child = None /\ prob child = prob from_state.
Proof.
  intros Hn Hs. unfold ExpandState, CopyState. rewrite Hs. simpl.
  rewrite Hn.
  destruct ((from_label =? to_label) || IsBlankLabel to_label);
    simpl; auto.
Qed.

Lemma ExpandTrace_sticky steps : forall from_state from_label,
  node from_state = None ->
  same_word steps = true ->
  Forall (fun child => node child = None /\ prob child = prob from_state)
    (ExpandTrace from_state from_label steps)
  /\ count_leaves from_state (ExpandTrace from_state from_label steps) = O.
Proof.
  induction steps as [| [to_label to_state] rest IH];
    intros from_state from_label Hn Hw; simpl.
  - split; [constructor | reflexivity].
  - simpl in Hw. apply andb_true_iff in Hw. destruct Hw as [Hs Hw].
    apply negb_true_iff in Hs.
    destruct (ExpandState_sticky from_state from_label to_state to_label
                Hn Hs) as [Hn' Hp'].
    destruct (IH _ to_label Hn' Hw) as [Hall Hcount].
    split.
    + constructor; [auto |].
      eapply Forall_impl; [| exact Hall].
      simpl. intros c [Hc1 Hc2]. split; congruence.
    + unfold leaves_trie. rewrite Hn. exact Hcount.
Qed.

Lemma last_Forall {A : Type} (P : A -> Prop) (l : list A) (d : A) :
  Forall P l -> P d -> P (last l d).
Proof.
  induction 1 as [| x l Hx Hl IH]; intro Hd; [exact Hd |].
  destruct l as [| y l']; [exact Hx |].
  change (P (last (y :: l') d)). auto.
Qed.

Lemma last_cons_default {A : Type} (l : list A) (x d : A) :
  last (x :: l) d = last l x.
Proof.
  revert x d. induction l as [| y l IH]; intros x d; [reflexivity |].
  change (last (y :: l) d = last (y :: l) x).
  rewrite (IH y d), (IH y x). reflexivity.
Qed.

(** C6. Along the expansions of one word (no step is the separator) at most
    one transition leaves the trie; [prob] at the end of the word is [prob]
    at its start when none does, and that minus [1.0f] when one does. A
    transition leaves the trie exactly when the symbol is looked up from a
    trie position and has no child there. When the trie position is empty
    at the start, it is empty and [prob] is unchanged after every step. *)
Theorem prefix_penalty_once_per_word
    (from_state : PrefixBeamState) (from_label : Z) (steps : list Step) :
  same_word steps = true ->
  let trace := ExpandTrace from_state from_label steps in
  (count_leaves from_state trace <= 1)%nat
  /\ prob (ExpandAll from_state from_label steps)
     = match count_leaves from_state trace with
       | O => prob from_state
       | S _ => F32.sub (prob from_state) F32.one
       end
  /\ (node from_state = None ->
      Forall (fun child =>
                node child = None /\ prob child = prob from_state) trace)
  /\ (forall to_state to_label,
        leaves_trie from_state
          (ExpandState from_state from_label to_state to_label) = true
        <-> ((from_label =? to_label) || IsBlankLabel to_label = false
             /\ IsSpaceLabel to_label = false
             /\ exists n, node from_state = Some n
                          /\ GetChildAt n to_label = None)).
Proof.
  intros Hw trace. subst trace.
  split; [| split; [| split]].
  3: { intro Hn. now apply ExpandTrace_sticky. }
  3: { intros. apply leaves_trie_iff. }
  - revert from_state from_label Hw.
    induction steps as [| [to_label to_state] rest IH];
      intros from_state from_label Hw; simpl; [lia |].
    simpl in Hw. apply andb_true_iff in Hw. destruct Hw as [Hs Hw].
    destruct (leaves_trie from_state
                (ExpandState from_state from_label to_state to_label))
      eqn:Hl.
    + assert (Hn : node (ExpandState from_state from_label to_state
                           to_label) = None).
      { unfold leaves_trie in Hl.
        destruct (node from_state); [| discriminate].
        destruct (node (ExpandState _ _ _ _)); [discriminate | reflexivity]. }
      destruct (ExpandTrace_sticky rest
                  (ExpandState from_state from_label to_state to_label)
                  to_label Hn Hw) as [_ Hc].
      rewrite Hc. lia.
    + simpl. apply (IH (ExpandState from_state from_label to_state to_label)
                  to_label Hw).
  - unfold ExpandAll.
    revert from_state from_label Hw.
    induction steps as [| [to_label to_state] rest IH];
      intros from_state from_label Hw; [reflexivity |].
    simpl in Hw. apply andb_true_iff in Hw. destruct Hw as [Hs Hw].
    cbn [ExpandTrace count_leaves].
    rewrite last_cons_default.
    pose proof (ExpandState_prob from_state from_label to_state to_label)
      as Hp. simpl in Hp.
    destruct (leaves_trie from_state
                (ExpandState from_state from_label to_state to_label))
      eqn:Hl.
    + assert (Hn : node (ExpandState from_state from_label to_state
                           to_label) = None).
      { unfold leaves_trie in Hl.
        destruct (node from_state); [| discriminate].
        destruct (node (ExpandState _ _ _ _)); [discriminate | reflexivity]. }
      destruct (ExpandTrace_sticky rest
                  (ExpandState from_state from_label to_state to_label)
                  to_label Hn Hw) as [Hall Hc].
      simpl. rewrite <- Hp.
      apply (last_Forall
               (fun c => prob c
                         = prob (ExpandState from_state from_label to_state
                                   to_label))).
      * eapply Forall_impl; [| exact Hall]. simpl. intros c [_ Hc2].
        exact Hc2.
      * reflexivity.
    + rewrite (IH (ExpandState from_state from_label to_state to_label)
                 to_label Hw).
      rewrite Hp. reflexivity.
Qed.

End PrefixProperties.

(** ** Both scorers *)

Section BothScorers.
Import LabelToCharacterTranslator.
Context `{T : Trie} `{M : Model} `{L : Libm} `{R : SeparatorReset}.

(** C5. For a symbol equal to the previous symbol, or blank, the child of
    the KenLM scorer has [delta_score = 0] and every other field of its
    parent, and the child of the prefix scorer has both fields of its
    parent. *)
Theorem collapsed_expansion_copies_parent
    (from_state to_state : KenLMBeamScorer.KenLMBeamState)
    (prefix_from prefix_to : PrefixScorer.PrefixBeamState)
    (previous x : Z) :
  previous = x \/ IsBlankLabel x = true ->
  let child :=
    fst (KenLMBeamScorer.ExpandState from_state previous to_state x) in
  let prefix_child :=
    PrefixScorer.ExpandState prefix_from previous prefix_to x in
  (KenLMBeamScorer.delta_score child = F32.zero
   /\ KenLMBeamScorer.language_model_score child
      = KenLMBeamScorer.language_model_score from_state
   /\ KenLMBeamScorer.score child = KenLMBeamScorer.score from_state
   /\ KenLMBeamScorer.incomplete_word child
      = KenLMBeamScorer.incomplete_word from_state
   /\ KenLMBeamScorer.incomplete_word_trie_node child
      = KenLMBeamScorer.incomplete_word_trie_node from_state
   /\ KenLMBeamScorer.model_state child
      = KenLMBeamScorer.model_state from_state)
  /\ (PrefixScorer.prob prefix_child = PrefixScorer.prob prefix_from
      /\ PrefixScorer.node prefix_child = PrefixScorer.node prefix_from).
Proof.
  intros Hc.
  assert (Hb : (previous =? x) || IsBlankLabel x = true).
  { destruct Hc as [-> | ->]; [rewrite Z.eqb_refl | rewrite orb_true_r];
      reflexivity. }
  split.
  - rewrite ExpandState_collapsed by exact Hb. simpl. repeat split.
  - unfold PrefixScorer.ExpandState. rewrite Hb. simpl. split; reflexivity.
Qed.

(** C9. When the new symbol and the previous symbol are both the word
    separator, the KenLM scorer makes no query to the language model and
    its child keeps the parent's [incomplete_word], trie position and every
    other field except [delta_score], which is zero; the child of the
    prefix scorer keeps the parent's [prob] and trie position. *)
Theorem repeated_separator_is_collapsed
    (from_state to_state : KenLMBeamScorer.KenLMBeamState)
    (prefix_from prefix_to : PrefixScorer.PrefixBeamState)
    (previous x : Z) :
  IsSpaceLabel previous = true ->
  IsSpaceLabel x = true ->
  let child :=
    fst (KenLMBeamScorer.ExpandState from_state previous to_state x) in
  let prefix_child :=
    PrefixScorer.ExpandState prefix_from previous prefix_to x in
  snd (KenLMBeamScorer.ExpandState from_state previous to_state x) = []
  /\ KenLMBeamScorer.incomplete_word child
     = KenLMBeamScorer.incomplete_word from_state
  /\ KenLMBeamScorer.incomplete_word_trie_node child
     = KenLMBeamScorer.incomplete_word_trie_node from_state
  /\ KenLMBeamScorer.model_state child = KenLMBeamScorer.model_state from_state
  /\ KenLMBeamScorer.language_model_score child
     = KenLMBeamScorer.language_model_score from_state
  /\ KenLMBeamScorer.score child = KenLMBeamScorer.score from_state
  /\ KenLMBeamScorer.delta_score child = F32.zero
  /\ PrefixScorer.prob prefix_child = PrefixScorer.prob prefix_from
  /\ PrefixScorer.node prefix_child = PrefixScorer.node prefix_from.
Proof.
  unfold IsSpaceLabel. intros Hp Hx.
  apply Z.eqb_eq in Hp. apply Z.eqb_eq in Hx. subst previous x.
  rewrite ExpandState_collapsed by reflexivity.
  simpl. repeat split.
Qed.

End BothScorers.

(** ** Runs over the sample trie and model *)

Section SampleRuns.
Import LabelToCharacterTranslator.
Local Existing Instance Sample.sample_trie.
Local Existing Instance Sample.reset_misses.
Local Existing Instance Sample.sample_model.
Local Existing Instance Sample.sample_libm.

(** The example of the specification: after 'h', a repeated 'h' and 't',
    with "ht" seen 3 times among 1000 words, the score is
    [log10 (3 / 1000)] on top of the language-model score, which is still
    zero. *)
Example sample_prefix_estimate :
  let s1 := Sample.expand Sample.root_state (-1) 7 Sample.fresh_state in
  let s2 := Sample.expand s1 7 7 Sample.fresh_state in
  let s3 := Sample.expand s2 7 19 Sample.fresh_state in
  KenLMBeamScorer.incomplete_word s3 = "ht"%string
  /\ KenLMBeamScorer.score s3
     = F32.add (log10 (F32.div (F32.of_int 3) (F32.of_int 1000))) F32.zero.
Proof.
  vm_compute. split; reflexivity.
Qed.

(** C1, the claim as stated fails. With the partial word "ht" pending, the
    final [language_model_score] is not the word's log-probability plus
    that of the end-of-sentence token. *)
Lemma ExpandStateEnd_does_not_add_scores :
  let state := Sample.state_ht in
  let word_score :=
    FullScore (KenLMBeamScorer.model_state state)
      (Index (KenLMBeamScorer.incomplete_word state)) in
  let end_score := FullScore (snd word_score) EndSentence in
  KenLMBeamScorer.incomplete_word state <> EmptyString
  /\ KenLMBeamScorer.language_model_score
       (fst (KenLMBeamScorer.ExpandStateEnd state))
     <> F32.add (fst word_score) (fst end_score).
Proof.
  vm_compute. repeat split; discriminate.
Defined.

(** C7, the claim as stated fails. Over a trie whose node of 'h' has count
    0, the state after 'h' has [score] minus infinity; a repeated 'h' then
    gives [delta_score = 0.0f], while the [score] after minus the [score]
    before is not a number. *)
Lemma collapsed_delta_score_is_not_the_difference :
  let parent := Sample.zero_count_h in
  let child := Sample.zero_count_expand parent 7 7 Sample.zero_count_fresh in
  KenLMBeamScorer.score parent = S754_infinity true
  /\ KenLMBeamScorer.delta_score child = F32.zero
  /\ F32.sub (KenLMBeamScorer.score child) (KenLMBeamScorer.score parent)
     = S754_nan
  /\ KenLMBeamScorer.delta_score child
     <> F32.sub (KenLMBeamScorer.score child)
          (KenLMBeamScorer.score parent).
Proof.
  vm_compute. repeat split; discriminate.
Defined.


(** C3. The prefix scorer returns [prob] whatever the previous score is. On
    the root state with previous score [-1.0f] it returns [0.0f], where
    [prob] combined with the previous score is [-1.0f]; the KenLM scorer
    and the default scorer return [-1.0f] there. *)
Theorem prefix_expansion_score_ignores_previous_score :
  (forall (state : Sample.PrefixState) (p q : F32.float),
      GetStateExpansionScore state p = GetStateExpansionScore state q)
  /\ GetStateExpansionScore Sample.root_prefix_state (F32.of_int (-1))
     = F32.zero
  /\ F32.add (PrefixScorer.prob Sample.root_prefix_state) (F32.of_int (-1))
     = F32.of_int (-1)
  /\ F32.of_int (-1) <> F32.zero
  /\ GetStateExpansionScore Sample.root_state (F32.of_int (-1))
     = F32.of_int (-1)
  /\ @GetStateExpansionScore _ (DefaultBeamScorer Sample.PrefixState)
       Sample.root_prefix_state (F32.of_int (-1))
     = F32.of_int (-1).
Proof.
  split; [reflexivity |].
  vm_compute. repeat split; discriminate.
Qed.


(** *** The theorems at concrete inputs *)

Lemma separator_reset_is_the_last_statement_witness :
  let child := Sample.expand Sample.state_h 7 27 Sample.fresh_state in
  KenLMBeamScorer.incomplete_word child = "h"%string
  /\ KenLMBeamScorer.incomplete_word_trie_node child = Some [7].
Proof.
  assert (Hne : 7 <> 27) by lia.
  exact (separator_reset_is_the_last_statement
           Sample.state_h 7 Sample.fresh_state 27 eq_refl Hne).
Defined.

Lemma letter_expansion_uses_unigram_proxy_witness :
  let child := Sample.expand Sample.state_h 7 19 Sample.fresh_state in
  KenLMBeamScorer.incomplete_word_trie_node child = Some [7; 19]
  /\ KenLMBeamScorer.score child
     = F32.add (log10 (F32.div (F32.of_int 3) (F32.of_int 1000))) F32.zero
  /\ KenLMBeamScorer.delta_score child
     = F32.sub (KenLMBeamScorer.score child)
         (KenLMBeamScorer.score Sample.state_h).
Proof.
  destruct (letter_expansion_uses_unigram_proxy
              Sample.state_h 7 Sample.fresh_state 19)
    as (Hnode & _ & Hscore & Hdelta).
  - lia.
  - reflexivity.
  - reflexivity.
  - split; [exact Hnode | split; [exact Hscore | exact Hdelta]].
Defined.

Lemma collapsed_expansion_copies_parent_witness :
  let child := Sample.expand Sample.state_h 7 7 Sample.fresh_state in
  let prefix_child :=
    PrefixScorer.ExpandState Sample.root_prefix_state 3 
      Sample.fresh_prefix_state 28 in
  KenLMBeamScorer.delta_score child = F32.zero
  /\ KenLMBeamScorer.incomplete_word child = "h"%string
  /\ PrefixScorer.prob prefix_child = F32.zero
  /\ PrefixScorer.node prefix_child = Some trieRoot.
Proof.
  destruct (collapsed_expansion_copies_parent
              Sample.state_h Sample.fresh_state
              Sample.root_prefix_state Sample.fresh_prefix_state 7 7)
    as ((Hdelta & _ & _ & Hword & _) & _).
  - left. reflexivity.
  - destruct (collapsed_expansion_copies_parent
                Sample.state_h Sample.fresh_state
                Sample.root_prefix_state Sample.fresh_prefix_state 3 28)
      as (_ & Hprob & Hnode).
    + right. reflexivity.
    + split; [exact Hdelta | split; [exact Hword | split]].
      * exact Hprob.
      * exact Hnode.
Defined.

Lemma prefix_penalty_once_per_word_witness :
  let steps :=
    [(7, Sample.fresh_prefix_state); (5, Sample.fresh_prefix_state);
     (6, Sample.fresh_prefix_state)] in
  (PrefixScorer.count_leaves Sample.root_prefix_state
     (PrefixScorer.ExpandTrace Sample.root_prefix_state (-1) steps) <= 1)%nat
  /\ PrefixScorer.prob
       (PrefixScorer.ExpandAll Sample.root_prefix_state (-1) steps)
     = F32.sub F32.zero F32.one.
Proof.
  destruct (prefix_penalty_once_per_word Sample.root_prefix_state (-1)
              [(7, Sample.fresh_prefix_state); (5, Sample.fresh_prefix_state);
               (6, Sample.fresh_prefix_state)])
    as (Hcount & Hprob & _).
  - reflexivity.
  - split; [exact Hcount | exact Hprob].
Defined.

Lemma delta_score_is_score_difference_witness :
  let child := Sample.expand Sample.state_ht 19 19 Sample.fresh_state in
  let final := fst (KenLMBeamScorer.ExpandStateEnd Sample.state_ht) in
  KenLMBeamScorer.delta_score child
  = F32.sub (KenLMBeamScorer.score child)
      (KenLMBeamScorer.score Sample.state_ht)
  /\ KenLMBeamScorer.delta_score final
     = F32.sub (KenLMBeamScorer.score final)
         (KenLMBeamScorer.score Sample.state_ht).
Proof.
  destruct (delta_score_is_score_difference
              Sample.state_ht 19 Sample.fresh_state 19)
    as ((_ & _ & Hchild) & Hfinal).
  split; [apply Hchild; reflexivity | exact Hfinal].
Defined.

Lemma repeated_separator_is_collapsed_witness :
  snd (KenLMBeamScorer.ExpandState Sample.state_ht_sep 27
         Sample.fresh_state 27)
  = []
  /\ KenLMBeamScorer.incomplete_word
       (Sample.expand Sample.state_ht_sep 27 27 Sample.fresh_state)
     = KenLMBeamScorer.incomplete_word Sample.state_ht_sep
  /\ PrefixScorer.node
       (PrefixScorer.ExpandState
          Sample.prefix_state_h_sep 27 Sample.fresh_prefix_state 27)
     = Some trieRoot.
Proof.
  destruct (repeated_separator_is_collapsed
              Sample.state_ht_sep Sample.fresh_state
              Sample.prefix_state_h_sep Sample.fresh_prefix_state 27 27)
    as (Hlog & Hword & _ & _ & _ & _ & _ & _ & Hnode).
  - reflexivity.
  - reflexivity.
  - split; [exact Hlog | split; [exact Hword | exact Hnode]].
Defined.


End SampleRuns.

(** ** LabelToCharacterTranslator *)

Section TranslatorProperties.
Import LabelToCharacterTranslator.

(** The character code of a symbol of the alphabet. *)
Lemma GetCharacterFromLabel_code (label : Z) :
  0 <= label <= 28 ->
  Z.of_N (N_of_ascii (GetCharacterFromLabel label))
  = if label =? 26 then 39 else if label =? 27 then 32 else label + 97.
Proof.
  intro Hr. unfold GetCharacterFromLabel.
  destruct (label =? 26); [reflexivity |].
  destruct (label =? 27); [reflexivity |].
  rewrite Z.mod_small by lia.
  rewrite N_ascii_embedding by lia.
  apply Z2N.id. lia.
Qed.

(** Two different symbols of the alphabet (0 to 28) have different
    characters. *)
Theorem GetCharacterFromLabel_injective (a b : Z) :
  0 <= a <= 28 -> 0 <= b <= 28 -> a <> b ->
  GetCharacterFromLabel a <> GetCharacterFromLabel b.
Proof.
  intros Ha Hb Hne Heq.
  pose proof (GetCharacterFromLabel_code a Ha) as Hca.
  pose proof (GetCharacterFromLabel_code b Hb) as Hcb.
  rewrite Heq in Hca. rewrite Hca in Hcb. clear Hca Heq.
  destruct (Z.eqb_spec a 26), (Z.eqb_spec a 27),
    (Z.eqb_spec b 26), (Z.eqb_spec b 27); lia.
Qed.

Lemma GetCharacterFromLabel_injective_witness :
  GetCharacterFromLabel 7 <> GetCharacterFromLabel 19.
Proof.
  apply (GetCharacterFromLabel_injective 7 19); lia.
Defined.

End TranslatorProperties.

(** ** Chains of expansions of the KenLM scorer *)

Section KenLMChains.
Import LabelToCharacterTranslator KenLMBeamScorer.
Context `{T : Trie} `{M : Model} `{L : Libm} `{R : SeparatorReset}.

Lemma string_append_assoc (a b c : string) :
  ((a ++ b) ++ c = a ++ (b ++ c))%string.
Proof.
  induction a as [| x a IH]; simpl; [reflexivity | now rewrite IH].
Qed.

Lemma string_append_empty (a : string) : (a ++ EmptyString)%string = a.
Proof.
  induction a as [| x a IH]; simpl; [reflexivity | now rewrite IH].
Qed.

Lemma string_append_not_empty (a : string) (c : ascii) :
  (a ++ String c EmptyString)%string <> EmptyString.
Proof.
  destruct a; discriminate.
Qed.

(** What a symbol that is neither collapsed nor the separator does to each
    field. *)
Lemma ExpandState_letter_fields from_state from_label to_state to_label :
  (from_label =? to_label) || IsBlankLabel to_label = false ->
  IsSpaceLabel to_label = false ->
  let child := fst (ExpandState from_state from_label to_state to_label) in
  incomplete_word child
  = (incomplete_word from_state
       ++ String (GetCharacterFromLabel to_label) EmptyString)%string
  /\ incomplete_word_trie_node child
     = walk (incomplete_word_trie_node from_state) [to_label]
  /\ model_state child = model_state from_state
  /\ language_model_score child = language_model_score from_state
  /\ score child
     = F32.add (proxy_of (incomplete_word_trie_node child))
         (language_model_score from_state)
  /\ snd (ExpandState from_state from_label to_state to_label) = [].
Proof.
  intros Hc Hs. rewrite ExpandState_letter by assumption.
  unfold lookup_prefix, proxy_of.
  destruct (incomplete_word_trie_node from_state) as [n |] eqn:Hn; simpl.
  - destruct (GetChildAt n to_label) as [c |]; simpl; repeat split.
  - rewrite Hn. repeat split.
Qed.

Lemma ExpandChain_cons from_state from_label to_label to_state rest :
  ExpandChain from_state from_label ((to_label, to_state) :: rest)
  = bind (ExpandState from_state from_label to_state to_label)
      (fun child => ExpandChain child to_label rest).
Proof. reflexivity. Qed.

Lemma bind_ret_l {A B : Type} (a : A) (f : A -> Queried B) :
  bind (ret a) f = f a.
Proof.
  unfold bind, ret. destruct (f a); reflexivity.
Qed.

Lemma bind_assoc {A B C : Type} (m : Queried A) (f : A -> Queried B)
    (g : B -> Queried C) :
  bind (bind m f) g = bind m (fun a => bind (f a) g).
Proof.
  unfold bind. destruct m as [a q1]. destruct (f a) as [b q2].
  destruct (g b) as [c q3]. now rewrite app_assoc.
Qed.

Lemma bind_ext {A B : Type} (m : Queried A) (f g : A -> Queried B) :
  (forall a, f a = g a) -> bind m f = bind m g.
Proof.
  intro H. unfold bind. destruct m as [a q1]. now rewrite H.
Qed.

(** A chain cut in two: the second part starts from the last state and the
    last symbol of the first. *)
Lemma ExpandChain_app first : forall from_state from_label second,
  ExpandChain from_state from_label (first ++ second)
  = bind (ExpandChain from_state from_label first)
      (fun middle =>
         ExpandChain middle (last (map fst first) from_label) second).
Proof.
  induction first as [| [to_label to_state] rest IH];
    intros from_state from_label second.
  - change (ExpandChain from_state from_label second
            = bind (ret from_state)
                (fun middle => ExpandChain middle from_label second)).
    now rewrite bind_ret_l.
  - simpl app. simpl map. rewrite !ExpandChain_cons.
    rewrite bind_assoc. apply bind_ext. intro child.
    rewrite last_cons_default. apply IH.
Qed.

Lemma same_word_last_label (steps : list Step) (from_label : Z) :
  same_word steps = true ->
  IsSpaceLabel from_label = false ->
  IsSpaceLabel (last (map fst steps) from_label) = false.
Proof.
  revert from_label.
  induction steps as [| [to_label to_state] rest IH];
    intros from_label Hw Hs; [exact Hs |].
  simpl in Hw. apply andb_true_iff in Hw. destruct Hw as [Hx Hw].
  apply negb_true_iff in Hx.
  simpl map. rewrite last_cons_default. now apply IH.
Qed.

(** The fields at the end of a chain without a separator. *)
Lemma ExpandChain_same_word (steps : list Step) :
  forall (from_state : KenLMBeamState) (from_label : Z),
  same_word steps = true ->
  let kept := kept_labels from_label (map fst steps) in
  let final := fst (ExpandChain from_state from_label steps) in
  incomplete_word final
  = (incomplete_word from_state ++ characters kept)%string
  /\ incomplete_word_trie_node final
     = walk (incomplete_word_trie_node from_state) kept
  /\ model_state final = model_state from_state
  /\ language_model_score final = language_model_score from_state
  /\ snd (ExpandChain from_state from_label steps) = [].
Proof.
  induction steps as [| [to_label to_state] rest IH];
    intros from_state from_label Hw; simpl.
  - rewrite string_append_empty. repeat split.
  - simpl in Hw. apply andb_true_iff in Hw. destruct Hw as [Hs Hw].
    apply negb_true_iff in Hs.
    rewrite fst_bind, snd_bind.
    specialize (IH (fst (ExpandState from_state from_label to_state
                            to_label)) to_label Hw).
    simpl in IH. destruct IH as (Hword & Hnode & Hstate & Hlm & Hlog).
    rewrite Hword, Hnode, Hstate, Hlm, Hlog.
    destruct ((from_label =? to_label) || IsBlankLabel to_label) eqn:Hc.
    + rewrite ExpandState_collapsed by assumption. simpl. repeat split.
    + destruct (ExpandState_letter_fields from_state from_label to_state
                  to_label Hc Hs) as (Hw1 & Hn1 & Hs1 & Hl1 & _ & Hq1).
      simpl in Hw1, Hn1, Hs1, Hl1.
      rewrite Hw1, Hn1, Hs1, Hl1, Hq1. simpl.
      rewrite string_append_assoc. simpl.
      repeat split.
      destruct (incomplete_word_trie_node from_state); [reflexivity |].
      destruct (kept_labels to_label (map fst rest)); reflexivity.
Qed.

(** Within a word (no step is the separator) the language model is never
    queried, [model_state] and [language_model_score] keep their values,
    [incomplete_word] grows by the characters of the symbols that are not
    collapsed, and the trie position is the one reached by looking these
    symbols up one after the other. *)
Theorem word_chain_accumulates_characters
    (steps : list Step) (from_state : KenLMBeamState) (from_label : Z) :
  same_word steps = true ->
  let kept := kept_labels from_label (map fst steps) in
  let final := fst (ExpandChain from_state from_label steps) in
  incomplete_word final
  = (incomplete_word from_state ++ characters kept)%string
  /\ incomplete_word_trie_node final
     = walk (incomplete_word_trie_node from_state) kept
  /\ model_state final = model_state from_state
  /\ language_model_score final = language_model_score from_state
  /\ snd (ExpandChain from_state from_label steps) = [].
Proof.
  apply ExpandChain_same_word.
Qed.

(** A word followed by the separator: the language model is queried once,
    for the whole word, in the model state the word started from; its
    log-probability becomes [language_model_score] and [score],
    [delta_score] is that minus the [score] before the separator, and the
    model state moves on. *)
Theorem completed_word_is_scored_once
    (steps : list Step) (from_state : KenLMBeamState) (from_label : Z)
    (to_state : KenLMBeamState) :
  same_word steps = true ->
  IsSpaceLabel from_label = false ->
  let word :=
    (incomplete_word from_state
       ++ characters (kept_labels from_label (map fst steps)))%string in
  let full_score := FullScore (model_state from_state) (Index word) in
  let before := fst (ExpandChain from_state from_label steps) in
  let run := ExpandChain from_state from_label (steps ++ [(27, to_state)]) in
  snd run = [FullScoreQuery (model_state from_state) (Index word)]
  /\ language_model_score (fst run) = fst full_score
  /\ score (fst run) = fst full_score
  /\ delta_score (fst run) = F32.sub (fst full_score) (score before)
  /\ model_state (fst run) = snd full_score.
Proof.
  intros Hw Hs.
  destruct (ExpandChain_same_word steps from_state from_label Hw)
    as (Hword & _ & Hstate & _ & Hlog).
  simpl in Hword, Hstate, Hlog.
  pose proof (same_word_last_label steps from_label Hw Hs) as Hlast.
  cbv zeta.
  rewrite ExpandChain_app, !fst_bind, !snd_bind. cbv beta.
  rewrite ExpandChain_cons, !fst_bind, !snd_bind. cbv beta.
  change (ExpandChain ?s ?l []) with (ret (M := M) s).
  unfold ret. simpl fst. simpl snd.
  rewrite Hlog, app_nil_r. simpl app.
  assert (Hc : (last (map fst steps) from_label =? 27)
               || IsBlankLabel 27 = false).
  { unfold IsSpaceLabel in Hlast. rewrite Hlast. reflexivity. }
  rewrite ExpandState_separator by (exact Hc || reflexivity).
  simpl. rewrite Hword, Hstate.
  destruct reset_reaches_to_state; repeat split.
Qed.

(** Over any chain of expansions the language model is queried once for
    every separator that is not collapsed, and at no other step. *)
Theorem queries_count_word_boundaries (steps : list Step) :
  forall (from_state : KenLMBeamState) (from_label : Z),
  List.length (snd (ExpandChain from_state from_label steps))
  = List.length
      (filter IsSpaceLabel (kept_labels from_label (map fst steps))).
Proof.
  induction steps as [| [to_label to_state] rest IH];
    intros from_state from_label; [reflexivity |].
  cbn [ExpandChain]. rewrite snd_bind, length_app, IH.
  simpl map. simpl kept_labels.
  destruct ((from_label =? to_label) || IsBlankLabel to_label) eqn:Hc.
  - rewrite ExpandState_collapsed by assumption. reflexivity.
  - cbn [filter].
    destruct (IsSpaceLabel to_label) eqn:Hs.
    + rewrite ExpandState_separator by assumption. reflexivity.
    + rewrite ExpandState_letter by assumption. reflexivity.
Qed.

End KenLMChains.

(** ** Invariants of the reachable states of the KenLM scorer *)

Section KenLMInvariants.
Import LabelToCharacterTranslator KenLMBeamScorer.
Context `{T : Trie} `{M : Model} `{L : Libm} `{R : SeparatorReset}.

(** What every reachable state satisfies, by cases on [incomplete_word],
    whether or not the reset of the separator branch reaches the child. *)
Lemma reachable_cases (s : KenLMBeamState) :
  reachable s ->
  match incomplete_word s with
  | EmptyString =>
      incomplete_word_trie_node s = Some trieRoot
      /\ score s = language_model_score s
  | String _ _ =>
      score s = language_model_score s
      \/ score s
         = F32.add (proxy_of (incomplete_word_trie_node s))
             (language_model_score s)
  end.
Proof.
  induction 1 as [root | from_state from_label to_state to_label Hr IH].
  - simpl. split; reflexivity.
  - destruct ((from_label =? to_label) || IsBlankLabel to_label) eqn:Hc.
    + rewrite ExpandState_collapsed by assumption. simpl. exact IH.
    + destruct (IsSpaceLabel to_label) eqn:Hs.
      * rewrite ExpandState_separator by assumption. simpl.
        destruct reset_reaches_to_state; simpl.
        -- split; reflexivity.
        -- destruct (incomplete_word from_state).
           ++ split; [exact (proj1 IH) | reflexivity].
           ++ left. reflexivity.
      * destruct (ExpandState_letter_fields from_state from_label to_state
                    to_label Hc Hs) as (Hw1 & _ & _ & Hl1 & Hsc & _).
        simpl in Hw1, Hl1, Hsc.
        destruct (incomplete_word
                    (fst (ExpandState from_state from_label to_state
                            to_label))) as [| c w] eqn:Hword.
        -- exfalso. symmetry in Hw1.
           exact (string_append_not_empty _ _ Hw1).
        -- right. rewrite Hsc, Hl1. reflexivity.
Qed.


(** [ExpandStateEnd] on a reachable state leaves the state at a word
    boundary: [incomplete_word] is empty and the trie position is the
    root. *)
Theorem finalised_state_is_at_word_boundary (s : KenLMBeamState) :
  reachable s ->
  let final := fst (ExpandStateEnd s) in
  incomplete_word final = EmptyString
  /\ incomplete_word_trie_node final = Some trieRoot.
Proof.
  intro Hr. pose proof (reachable_cases s Hr) as Hinv.
  rewrite ExpandStateEnd_value.
  destruct (incomplete_word s) as [| c w] eqn:Hw; simpl.
  - rewrite Hw. split; [reflexivity | exact (proj1 Hinv)].
  - split; reflexivity.
Qed.

End KenLMInvariants.

(** ** Chains of expansions of the prefix scorer *)

Section PrefixChains.
Import LabelToCharacterTranslator PrefixScorer.
Context `{T : Trie}.

Lemma walk_None (labels : list Z) : walk None labels = None.
Proof. destruct labels; reflexivity. Qed.

Lemma ExpandAll_cons from_state from_label to_label to_state rest :
  ExpandAll from_state from_label ((to_label, to_state) :: rest)
  = ExpandAll (ExpandState from_state from_label to_state to_label)
      to_label rest.
Proof.
  unfold ExpandAll. simpl. apply last_cons_default.
Qed.

(** The three branches of [ExpandState]. *)
Lemma Prefix_ExpandState_collapsed from_state from_label to_state to_label :
  (from_label =? to_label) || IsBlankLabel to_label = true ->
  ExpandState from_state from_label to_state to_label
  = mkPrefixBeamState (prob from_state) (node from_state).
Proof.
  intro Hc. unfold ExpandState. rewrite Hc. reflexivity.
Qed.

Lemma Prefix_ExpandState_separator from_state from_label to_state to_label :
  (from_label =? to_label) || IsBlankLabel to_label = false ->
  IsSpaceLabel to_label = true ->
  ExpandState from_state from_label to_state to_label
  = mkPrefixBeamState (prob from_state) (Some trieRoot).
Proof.
  intros Hc Hs. unfold ExpandState. rewrite Hc, Hs. reflexivity.
Qed.

Lemma Prefix_ExpandState_letter from_state from_label to_state to_label :
  (from_label =? to_label) || IsBlankLabel to_label = false ->
  IsSpaceLabel to_label = false ->
  ExpandState from_state from_label to_state to_label
  = match node from_state with
    | None => mkPrefixBeamState (prob from_state) None
    | Some n =>
        match GetChildAt n to_label with
        | Some c => mkPrefixBeamState (prob from_state) (Some c)
        | None =>
            mkPrefixBeamState (F32.sub (prob from_state) F32.one) None
        end
    end.
Proof.
  intros Hc Hs. unfold ExpandState, CopyState. rewrite Hc, Hs. simpl.
  destruct (node from_state) as [n |]; [| reflexivity].
  destruct (GetChildAt n to_label); reflexivity.
Qed.

(** Within a word (no step is the separator) the trie position is the one
    reached by looking up, one after the other, the symbols that are not
    collapsed; [prob] loses [1.0f] when the word started at a trie position
    and ends at none, and keeps its value otherwise. *)
Theorem prefix_word_chain_walks_trie (steps : list Step) :
  forall (from_state : PrefixBeamState) (from_label : Z),
  same_word steps = true ->
  let kept := kept_labels from_label (map fst steps) in
  let final := ExpandAll from_state from_label steps in
  node final = walk (node from_state) kept
  /\ prob final
     = match node from_state, walk (node from_state) kept with
       | Some _, None => F32.sub (prob from_state) F32.one
       | _, _ => prob from_state
       end.
Proof.
  induction steps as [| [to_label to_state] rest IH];
    intros from_state from_label Hw.
  - simpl. split; [reflexivity |].
    destruct (node from_state); reflexivity.
  - simpl in Hw. apply andb_true_iff in Hw. destruct Hw as [Hs Hw].
    apply negb_true_iff in Hs.
    cbv zeta. rewrite ExpandAll_cons.
    specialize (IH (ExpandState from_state from_label to_state to_label)
                  to_label Hw).
    cbv zeta in IH. destruct IH as [IHn IHp]. rewrite IHn, IHp.
    simpl map. simpl kept_labels.
    destruct ((from_label =? to_label) || IsBlankLabel to_label) eqn:Hc.
    + rewrite Prefix_ExpandState_collapsed by assumption. simpl.
      split; reflexivity.
    + rewrite Prefix_ExpandState_letter by assumption.
      destruct (node from_state) as [n |]; simpl.
      * destruct (GetChildAt n to_label) as [c |]; simpl.
        -- split; reflexivity.
        -- rewrite walk_None. split; reflexivity.
      * rewrite walk_None. split; reflexivity.
Qed.

(** Over any chain of expansions, [prob] at the end is [prob] at the start
    with [1.0f] subtracted once for every transition that left the trie. *)
Theorem prefix_prob_counts_penalties (steps : list Step) :
  forall (from_state : PrefixBeamState) (from_label : Z),
  prob (ExpandAll from_state from_label steps)
  = penalised
      (count_leaves from_state (ExpandTrace from_state from_label steps))
      (prob from_state).
Proof.
  induction steps as [| [to_label to_state] rest IH];
    intros from_state from_label; [reflexivity |].
  rewrite ExpandAll_cons, IH. cbn [ExpandTrace count_leaves].
  pose proof (ExpandState_prob from_state from_label to_state to_label)
    as Hp. cbv zeta in Hp. rewrite Hp.
  destruct (leaves_trie from_state
              (ExpandState from_state from_label to_state to_label)).
  - unfold penalised. rewrite Nat.add_1_l.
    rewrite Nat.iter_succ_r. reflexivity.
  - reflexivity.
Qed.

(** Over any chain of expansions, the transitions that leave the trie are
    at most one per word: one for the word in progress at the start, if it
    still has a trie position, and one for each separator in the chain. *)
Theorem prefix_penalties_at_most_one_per_word (steps : list Step) :
  forall (from_state : PrefixBeamState) (from_label : Z),
  (count_leaves from_state (ExpandTrace from_state from_label steps)
   <= match node from_state with Some _ => 1 | None => 0 end
      + separators steps)%nat.
Proof.
  induction steps as [| [to_label to_state] rest IH];
    intros from_state from_label; [simpl; lia |].
  cbn [ExpandTrace count_leaves].
  specialize (IH (ExpandState from_state from_label to_state to_label)
                to_label).
  unfold separators in *. cbn [filter fst].
  unfold leaves_trie.
  destruct ((from_label =? to_label) || IsBlankLabel to_label) eqn:Hc.
  - rewrite Prefix_ExpandState_collapsed in * by assumption. simpl in *.
    destruct (node from_state); destruct (IsSpaceLabel to_label);
      simpl; lia.
  - destruct (IsSpaceLabel to_label) eqn:Hs.
    + rewrite Prefix_ExpandState_separator in * by assumption. simpl in *.
      destruct (node from_state); lia.
    + rewrite Prefix_ExpandState_letter in * by assumption.
      destruct (node from_state) as [n |]; simpl in *.
      * destruct (GetChildAt n to_label); simpl in *; lia.
      * lia.
Qed.

End PrefixChains.

(** ** Chains over the sample trie and model *)

Section SampleChains.
Import LabelToCharacterTranslator.
Local Existing Instance Sample.sample_trie.
Local Existing Instance Sample.reset_misses.
Local Existing Instance Sample.sample_model.
Local Existing Instance Sample.sample_libm.

Lemma word_chain_accumulates_characters_witness :
  let steps :=
    [(7, Sample.fresh_state); (7, Sample.fresh_state);
     (28, Sample.fresh_state); (19, Sample.fresh_state)] in
  let final :=
    fst (KenLMBeamScorer.ExpandChain Sample.root_state (-1) steps) in
  KenLMBeamScorer.incomplete_word final = "ht"%string
  /\ KenLMBeamScorer.incomplete_word_trie_node final = Some [7; 19]
  /\ snd (KenLMBeamScorer.ExpandChain Sample.root_state (-1) steps) = [].
Proof.
  destruct (word_chain_accumulates_characters
              [(7, Sample.fresh_state); (7, Sample.fresh_state);
               (28, Sample.fresh_state); (19, Sample.fresh_state)]
              Sample.root_state (-1))
    as (Hword & Hnode & _ & _ & Hlog).
  - reflexivity.
  - split; [exact Hword | split; [exact Hnode | exact Hlog]].
Defined.

Lemma completed_word_is_scored_once_witness :
  let steps := [(7, Sample.fresh_state); (19, Sample.fresh_state)] in
  let run :=
    KenLMBeamScorer.ExpandChain Sample.root_state (-1)
      (steps ++ [(27, Sample.fresh_state)]) in
  snd run = [FullScoreQuery (M := Sample.sample_model) 0%nat 2%nat]
  /\ KenLMBeamScorer.score (fst run) = F32.of_int (-3)
  /\ KenLMBeamScorer.model_state (fst run) = 1%nat.
Proof.
  destruct (completed_word_is_scored_once
              [(7, Sample.fresh_state); (19, Sample.fresh_state)]
              Sample.root_state (-1) Sample.fresh_state)
    as (Hlog & _ & Hscore & _ & Hstate).
  - reflexivity.
  - reflexivity.
  - split; [exact Hlog | split; [exact Hscore | exact Hstate]].
Defined.


Lemma finalised_state_is_at_word_boundary_witness :
  let final := fst (KenLMBeamScorer.ExpandStateEnd Sample.state_htf) in
  KenLMBeamScorer.incomplete_word final = EmptyString
  /\ KenLMBeamScorer.incomplete_word_trie_node final = Some trieRoot.
Proof.
  apply (finalised_state_is_at_word_boundary Sample.state_htf).
  unfold Sample.state_htf, Sample.state_ht, Sample.state_h,
    Sample.root_state, Sample.expand.
  repeat apply KenLMBeamScorer.reachable_expand.
  apply KenLMBeamScorer.reachable_init.
Defined.

Lemma prefix_word_chain_walks_trie_witness :
  let steps :=
    [(7, Sample.fresh_prefix_state); (19, Sample.fresh_prefix_state);
     (19, Sample.fresh_prefix_state); (4, Sample.fresh_prefix_state)] in
  let final :=
    PrefixScorer.ExpandAll Sample.root_prefix_state (-1) steps in
  PrefixScorer.node final = None
  /\ PrefixScorer.prob final = F32.sub F32.zero F32.one.
Proof.
  apply (prefix_word_chain_walks_trie
           [(7, Sample.fresh_prefix_state); (19, Sample.fresh_prefix_state);
            (19, Sample.fresh_prefix_state); (4, Sample.fresh_prefix_state)]
           Sample.root_prefix_state (-1)).
  reflexivity.
Defined.

End SampleChains.
